(** * text-png: the text-to-PNG route handler

    A shallow embedding of [src/app/api/text2png.png/route.ts] and the
    properties of its markup parser, font registry, canvas sizing and
    request boundary.

    Conventions of the embedding.
    - JavaScript strings are [string]s; only equality with the underscore,
      the decimal digits, the sign and the ASCII white space is ever
      inspected by the code.
    - JavaScript numbers are [number]: exact rationals extended with [NaN].
      Rounding and overflow of IEEE doubles are not modelled.
    - The module-level [registeredFonts] set, the font table of the canvas
      backend, the file-system probes and the console form the [World] that
      every call threads through.
    - The canvas library, the file system and the PNG encoder are external:
      they are the fields of a [Backend] record. *)

From Stdlib Require Import Ascii String QArith Qround Lia Lqa.
From stdpp Require Import base gmap sets list strings.

Local Close Scope Q_scope.
Local Open Scope string_scope.
Local Open Scope list_scope.

(** ** Strings *)

Module Str.

(** The character [_] of the bold toggle. *)
Definition underscore : ascii := "_"%char.

Definition is_underscore (c : ascii) : bool := Ascii.eqb c underscore.

(** [Array.prototype.join] *)
Fixpoint join (sep : string) (parts : list string) : string :=
  match parts with
  | [] => ""
  | [p] => p
  | p :: ps => p +:+ sep +:+ join sep ps
  end.

(** Concatenation of a list of strings, [join] with the empty separator. *)
Definition concat (parts : list string) : string :=
  foldr String.append "" parts.

End Str.

(** ** Markup parser (route.ts, lines 61-80) *)

Record TextSegment := mkSegment { text : string; isBold : bool }.

(** [text.split(/__/)]: the scan of [RegExp.prototype[Symbol.split]].
    [cur] is the part collected since the end of the last match; the
    position moves left to right, a match of the two-character pattern
    closes the current part and resumes behind the match, any other
    character joins the current part.  The pattern never matches the empty
    string, so the last part is always emitted, also when it is empty. *)
Fixpoint split_from (cur : string) (s : string) : list string :=
  match s with
  | EmptyString => [cur]
  | String c rest =>
      match rest with
      | String c' rest' =>
          if Str.is_underscore c && Str.is_underscore c'
          then cur :: split_from "" rest'
          else split_from (cur +:+ String c "") rest
      | EmptyString => split_from (cur +:+ String c "") rest
      end
  end.

Definition split (s : string) : list string := split_from "" s.

(** [Array.prototype.forEach] with a callback that reads the element and its
    index; the variables the callback assigns are threaded as [st]. *)
Fixpoint forEach_at {A St : Type} (cb : A -> nat -> St -> St)
    (index : nat) (arr : list A) (st : St) : St :=
  match arr with
  | [] => st
  | x :: xs => forEach_at cb (S index) xs (cb x index st)
  end.

Definition forEach {A St : Type} (cb : A -> nat -> St -> St)
    (arr : list A) (st : St) : St :=
  forEach_at cb 0 arr st.

(** [segments.push(x)] *)
Definition push {A : Type} (arr : list A) (x : A) : list A := arr ++ [x].

Definition parseText (text : string) : list TextSegment :=
  let segments := [] in
  let parts := split text in
  forEach
    (fun part index segments =>
       if (0 <? String.length part)%nat
       then push segments {| text := part; isBold := (index mod 2 =? 1)%nat |}
       else segments)
    parts segments.

(** *** What the specification says about parsing *)

(** The runs the specification describes for a list of parts: the non-empty
    parts in order, each bold iff its index in the split is odd. *)
Definition tagged_nonempty_parts (parts : list string) : list TextSegment :=
  omap (fun ip : nat * string =>
          if decide (ip.2 = "") then None
          else Some {| text := ip.2; isBold := Nat.odd ip.1 |})
       (imap pair parts).

(** The same, for parts that start at index [i] of the split. *)
Definition tagged_from (i : nat) (parts : list string) : list TextSegment :=
  omap (fun ip : nat * string =>
          if decide (ip.2 = "") then None
          else Some {| text := ip.2; isBold := Nat.odd ip.1 |})
       (imap (fun j p => (i + j, p)) parts).

(** [cur] glued in front of the first part. *)
Definition glue (cur : string) (parts : list string) : list string :=
  match parts with
  | [] => [cur]
  | p :: ps => (cur +:+ p) :: ps
  end.

(** Number of delimiter occurrences, read left to right without overlap. *)
Fixpoint count_delims (s : string) : nat :=
  match s with
  | EmptyString => 0
  | String c rest =>
      match rest with
      | String c' rest' =>
          if Str.is_underscore c && Str.is_underscore c'
          then S (count_delims rest')
          else count_delims rest
      | EmptyString => 0
      end
  end.

(** The input with every occurrence of the delimiter removed
    ([s.replaceAll("__", "")]). *)
Fixpoint remove_delims (s : string) : string :=
  match s with
  | EmptyString => ""
  | String c rest =>
      match rest with
      | String c' rest' =>
          if Str.is_underscore c && Str.is_underscore c'
          then remove_delims rest'
          else String c (remove_delims rest)
      | EmptyString => String c ""
      end
  end.

(** The delimiter occurs somewhere in [s]. *)
Definition has_delim (s : string) : Prop :=
  exists a b, s = a +:+ "__" +:+ b.

(** The concatenation of the text fields of a list of runs. *)
Definition texts (runs : list TextSegment) : string :=
  Str.concat (map text runs).

(** ** Numbers *)

(** A JavaScript number: [NaN] or a finite value, kept exact. *)
Inductive number := NaN | Fin (q : Q).

Definition num_of_Z (z : Z) : number := Fin (inject_Z z).

Definition num_add (a b : number) : number :=
  match a, b with
  | Fin x, Fin y => Fin (x + y)
  | _, _ => NaN
  end.

Definition num_mul (a b : number) : number :=
  match a, b with
  | Fin x, Fin y => Fin (x * y)
  | _, _ => NaN
  end.

(** [a / 2], the only division of the handler. *)
Definition num_half (a : number) : number :=
  match a with
  | Fin x => Fin (x / 2)
  | NaN => NaN
  end.

(** [Math.ceil] *)
Definition Math_ceil (a : number) : number :=
  match a with
  | Fin x => num_of_Z (Qceiling x)
  | NaN => NaN
  end.



(** [parseInt(s, 10)]: leading white space is skipped, one sign is read,
    then the longest run of decimal digits; [NaN] when there is no digit. *)
Module ParseInt.

Definition is_space (c : ascii) : bool :=
  let n := nat_of_ascii c in
  ((9 <=? n) && (n <=? 13) || (n =? 32))%nat.

Fixpoint trim_start (s : string) : string :=
  match s with
  | String c rest => if is_space c then trim_start rest else s
  | EmptyString => ""
  end.

Definition digit_of (c : ascii) : option Z :=
  let n := nat_of_ascii c in
  if ((48 <=? n) && (n <=? 57))%nat then Some (Z.of_nat (n - 48)) else None.

Fixpoint digits (acc : option Z) (s : string) : option Z :=
  match s with
  | String c rest =>
      match digit_of c with
      | Some d => digits (Some (10 * default 0%Z acc + d)%Z) rest
      | None => acc
      end
  | EmptyString => acc
  end.

Definition sign_and_rest (s : string) : Z * string :=
  match s with
  | String c rest =>
      if Ascii.eqb c "-" then ((-1)%Z, rest)
      else if Ascii.eqb c "+" then (1%Z, rest)
      else (1%Z, s)
  | EmptyString => (1%Z, s)
  end.

Definition parseInt (s : string) : number :=
  let '(sign, body) := sign_and_rest (trim_start s) in
  match digits None body with
  | Some n => num_of_Z (sign * n)
  | None => NaN
  end.

End ParseInt.

Definition parseInt := ParseInt.parseInt.

(** ** Exceptions and the world *)

(** A thrown value: [new Error(message)], or the [TypeError] that a Node
    built-in raises on an argument of the wrong type. *)
Inductive exn := Error (message : string) | TypeError (message : string).

(** What persists between calls: the module-level [registeredFonts] set,
    the fonts handed to the backend's [registerFont] (path and family, in
    call order), the paths probed with [fs.existsSync] (in call order) and
    what [console.error] has received. *)
Record World := mkWorld {
  registeredFonts : gset string;
  fontTable : list (string * string);
  fsProbes : list string;
  console : list (string * exn)
}.

Definition startup : World :=
  {| registeredFonts := ∅; fontTable := []; fsProbes := []; console := [] |}.

(** Computations that read and change the world and may throw. *)
Definition M (A : Type) : Type := World -> (exn + A) * World.

Definition ret {A : Type} (a : A) : M A := fun w => (inr a, w).

Definition throw {A : Type} (e : exn) : M A := fun w => (inl e, w).

Definition bind {A B : Type} (m : M A) (k : A -> M B) : M B :=
  fun w =>
    match m w with
    | (inr a, w') => k a w'
    | (inl e, w') => (inl e, w')
    end.

Notation "'let*' x ':=' m 'in' k" := (bind m (fun x => k))
  (at level 10, x name, m at level 100, k at level 200).

(** ** Canvas *)

(** The value the handler assigns to [ctx.font]:
    [`${size}px "${family}"`]. *)
Record Font := mkFont { font_px : number; font_family : string }.

(** What has been painted, with the context state each call used. *)
Inductive DrawOp :=
| ClearRect (x y w h : number)
| FillRect (style : string) (x y w h : number)
| FillText (font : Font) (style baseline : string) (txt : string) (x y : number).

(** A canvas with its 2d context. *)
Record Canvas := mkCanvas {
  width : number;
  height : number;
  font : Font;
  fillStyle : string;
  textBaseline : string;
  ops : list DrawOp
}.

Definition Buffer : Type := list Byte.byte.

(** The collaborators outside the repository: the process, the file system
    and the canvas library. [be_registerFont] answers [Some e] when
    [registerFont] throws [e], [be_toBuffer] answers [inl e] when the
    encoder throws [e]. *)
Record Backend := mkBackend {
  be_cwd : string;
  be_existsSync : string -> bool;
  be_registerFont : string -> string -> option exn;
  be_measureText : Font -> string -> number;
  be_toBuffer : Canvas -> exn + Buffer
}.

(** [createCanvas(w, h)] with a fresh context. *)
Definition createCanvas (w h : number) : Canvas :=
  {| width := w; height := h;
     font := {| font_px := num_of_Z 10; font_family := "sans-serif" |};
     fillStyle := "#000000"; textBaseline := "alphabetic"; ops := [] |}.

(** [canvas.width = w] and [canvas.height = h]: the surface is allocated
    anew and the context starts over. *)
Definition set_width (c : Canvas) (w : number) : Canvas :=
  createCanvas w (height c).

Definition set_height (c : Canvas) (h : number) : Canvas :=
  createCanvas (width c) h.

Definition set_font (c : Canvas) (f : Font) : Canvas :=
  {| width := width c; height := height c; font := f;
     fillStyle := fillStyle c; textBaseline := textBaseline c; ops := ops c |}.

Definition set_fillStyle (c : Canvas) (style : string) : Canvas :=
  {| width := width c; height := height c; font := font c;
     fillStyle := style; textBaseline := textBaseline c; ops := ops c |}.

Definition set_textBaseline (c : Canvas) (b : string) : Canvas :=
  {| width := width c; height := height c; font := font c;
     fillStyle := fillStyle c; textBaseline := b; ops := ops c |}.

Definition paint (c : Canvas) (op : DrawOp) : Canvas :=
  {| width := width c; height := height c; font := font c;
     fillStyle := fillStyle c; textBaseline := textBaseline c;
     ops := ops c ++ [op] |}.

Definition clearRect (c : Canvas) (x y w h : number) : Canvas :=
  paint c (ClearRect x y w h).

Definition fillRect (c : Canvas) (x y w h : number) : Canvas :=
  paint c (FillRect (fillStyle c) x y w h).

Definition fillText (c : Canvas) (txt : string) (x y : number) : Canvas :=
  paint c (FillText (font c) (fillStyle c) (textBaseline c) txt x y).

(** [ctx.measureText(txt).width] *)
Definition measureText (be : Backend) (c : Canvas) (txt : string) : number :=
  be_measureText be (font c) txt.

(** ** Font registry (route.ts, lines 6-59) *)

(** A value read from [SUPPORTED_FONTS]: a path, an object with the two
    faces, or a property that every object inherits from
    [Object.prototype] (truthy, not a string, and without [regular] and
    [bold] properties of its own). *)
Inductive FontConfig :=
| SinglePath (path : string)
| Faces (regular bold : string)
| Inherited.

Definition SUPPORTED_FONTS : list (string * FontConfig) :=
  [ ("Roboto",
      Faces "/fonts/Roboto/Roboto-VariableFont_wdth,wght.ttf"
            "/fonts/Roboto/Roboto-VariableFont_wdth,wght.ttf");
    ("Roboto-Italic",
      SinglePath "/fonts/Roboto/Roboto-Italic-VariableFont_wdth,wght.ttf");
    ("Patua One", SinglePath "/fonts/Patua_One/PatuaOne-Regular.ttf");
    ("Suisse",
      Faces "/fonts/Suisse/suisse-intl-regular.ttf"
            "/fonts/Suisse/suisse-intl-bold.ttf") ].

(** The properties of [Object.prototype], which a property read on an
    object literal reaches when the object has no such key of its own. *)
Definition Object_prototype_keys : list string :=
  [ "constructor"; "__defineGetter__"; "__defineSetter__"; "hasOwnProperty";
    "__lookupGetter__"; "__lookupSetter__"; "isPrototypeOf";
    "propertyIsEnumerable"; "toString"; "valueOf"; "__proto__";
    "toLocaleString" ].

Fixpoint own_property {V : Type} (obj : list (string * V)) (key : string)
    : option V :=
  match obj with
  | [] => None
  | (k, v) :: rest => if decide (k = key) then Some v else own_property rest key
  end.

(** [SUPPORTED_FONTS[key]]; [None] is [undefined]. *)
Definition SUPPORTED_FONTS_get (key : string) : option FontConfig :=
  match own_property SUPPORTED_FONTS key with
  | Some v => Some v
  | None =>
      if decide (key ∈ Object_prototype_keys) then Some Inherited else None
  end.

(** [Object.keys(obj)] *)
Definition Object_keys {V : Type} (obj : list (string * V)) : list string :=
  map fst obj.

(** The families of the allow-list. *)
Definition allow_listed (family : string) : Prop :=
  family ∈ Object_keys SUPPORTED_FONTS.

Definition dquote : string := String "034"%char "".

Definition unsupported_message (fontFamily : string) : string :=
  "Font " +:+ dquote +:+ fontFamily +:+ dquote +:+
  " is not supported. Supported fonts are: " +:+
  Str.join ", " (Object_keys SUPPORTED_FONTS).

Definition invalid_path_message : string :=
  "The " +:+ dquote +:+ "path" +:+ dquote +:+
  " argument must be of type string. Received undefined".

(** [path.join(a, b, c)] where [c] may be [undefined]: every argument must
    be a string. The paths of the table are absolute, so joining them
    appends them. *)
Definition path_join (a b : string) (c : option string) : M string :=
  match c with
  | Some c => ret (a +:+ "/" +:+ b +:+ c)
  | None => throw (TypeError invalid_path_message)
  end.

(** [fs.existsSync(p)] *)
Definition existsSync (be : Backend) (p : string) : M bool :=
  fun w =>
    (inr (be_existsSync be p),
     {| registeredFonts := registeredFonts w; fontTable := fontTable w;
        fsProbes := fsProbes w ++ [p]; console := console w |}).

(** [registerFont(p, { family })] of the canvas library *)
Definition registerFont (be : Backend) (p family : string) : M unit :=
  fun w =>
    match be_registerFont be p family with
    | Some e => (inl e, w)
    | None =>
        (inr tt,
         {| registeredFonts := registeredFonts w;
            fontTable := fontTable w ++ [(p, family)];
            fsProbes := fsProbes w; console := console w |})
    end.

(** [registeredFonts.has(key)] *)
Definition registeredFonts_has (key : string) : M bool :=
  fun w => (inr (bool_decide (key ∈ registeredFonts w)), w).

(** [registeredFonts.add(key)] *)
Definition registeredFonts_add (key : string) : M unit :=
  fun w =>
    (inr tt,
     {| registeredFonts := {[ key ]} ∪ registeredFonts w;
        fontTable := fontTable w; fsProbes := fsProbes w;
        console := console w |}).

Definition registerLocalFont (be : Backend) (fontFamily : string)
    (isBold : bool) : M string :=
  let cacheKey := fontFamily +:+ (if isBold then "-bold" else "") in
  let* cached := registeredFonts_has cacheKey in
  if cached then ret (if isBold then fontFamily +:+ "-bold" else fontFamily)
  else
    match SUPPORTED_FONTS_get fontFamily with
    | None => throw (Error (unsupported_message fontFamily))
    | Some fontConfig =>
        let fontPath :=
          match fontConfig with
          | SinglePath p => Some p
          | Faces regular bold => Some (if isBold then bold else regular)
          | Inherited => None
          end in
        let* absoluteFontPath := path_join (be_cwd be) "public" fontPath in
        let* present := existsSync be absoluteFontPath in
        if negb present
        then throw (Error ("Font file not found: " +:+ absoluteFontPath))
        else
          let registration :=
            if isBold then fontFamily +:+ "-bold" else fontFamily in
          let* _ := registerFont be absoluteFontPath registration in
          let* _ := registeredFonts_add cacheKey in
          ret registration
    end.

(** ** Request handler (route.ts, lines 82-161) *)

(** The query of the request URL, in order of appearance. *)
Definition URLSearchParams : Type := list (string * string).

(** [searchParams.get(name)]: the first value, [None] for [null]. *)
Definition searchParams_get (searchParams : URLSearchParams) (name : string)
    : option string :=
  own_property searchParams name.

(** [value || fallback] on a string or [null]: the empty string is falsy. *)
Definition or_else (value : option string) (fallback : string) : string :=
  match value with
  | Some v => if decide (v = "") then fallback else v
  | None => fallback
  end.

Record RenderRequest := mkRequest {
  req_text : string;
  req_fontFamily : string;
  req_fontSize : number;
  req_backgroundColor : string;
  req_scale : number
}.

(** Lines 86-91: the parameters with their defaults. *)
Definition request_of (searchParams : URLSearchParams) : RenderRequest :=
  {| req_text := or_else (searchParams_get searchParams "text") "Hello World";
     req_fontFamily := or_else (searchParams_get searchParams "font") "Suisse";
     req_fontSize :=
       parseInt (or_else (searchParams_get searchParams "font_size") "24");
     req_backgroundColor :=
       or_else (searchParams_get searchParams "background_color")
               "transparent";
     req_scale :=
       parseInt (or_else (searchParams_get searchParams "scale") "2") |}.

(** Lines 108-114: the first pass, which adds up the widths. *)
Definition measure_segments (be : Backend) (scaledFontSize : number)
    (regularFontFamily boldFontFamily : string)
    (segments : list TextSegment) (canvas : Canvas) : number * Canvas :=
  forEach
    (fun segment (_ : nat) '(totalWidth, ctx) =>
       let fontName :=
         if isBold segment then boldFontFamily else regularFontFamily in
       let ctx :=
         set_font ctx {| font_px := scaledFontSize; font_family := fontName |} in
       let metrics := measureText be ctx (text segment) in
       (num_add totalWidth metrics, ctx))
    segments (num_of_Z 0, canvas).

(** Lines 134-142: the second pass, which draws. *)
Definition draw_segments (be : Backend) (scaledFontSize : number)
    (regularFontFamily boldFontFamily : string) (padding height : number)
    (segments : list TextSegment) (canvas : Canvas) : number * Canvas :=
  forEach
    (fun segment (_ : nat) '(currentX, ctx) =>
       let fontName :=
         if isBold segment then boldFontFamily else regularFontFamily in
       let ctx :=
         set_font ctx {| font_px := scaledFontSize; font_family := fontName |} in
       let ctx := set_fillStyle ctx "black" in
       let ctx := set_textBaseline ctx "middle" in
       let ctx := fillText ctx (text segment) currentX (num_half height) in
       (num_add currentX (measureText be ctx (text segment)), ctx))
    segments (padding, canvas).

(** Lines 97-142: measuring, sizing and painting, once both faces are
    registered. *)
Definition render_canvas (be : Backend) (req : RenderRequest)
    (regularFontFamily boldFontFamily : string) : Canvas :=
  let text := req_text req in
  let fontSize := req_fontSize req in
  let backgroundColor := req_backgroundColor req in
  let scale := req_scale req in
  let canvas := createCanvas (num_of_Z 1) (num_of_Z 1) in
  let scaledFontSize := num_mul fontSize scale in
  let segments := parseText text in
  let '(totalWidth, canvas) :=
    measure_segments be scaledFontSize regularFontFamily boldFontFamily
                     segments canvas in
  let basePadding := num_of_Z 8 in
  let padding := num_mul basePadding scale in
  let width := Math_ceil (num_add totalWidth (num_mul padding (num_of_Z 2))) in
  let height :=
    Math_ceil (num_add scaledFontSize (num_mul padding (num_of_Z 2))) in
  let canvas := set_width canvas width in
  let canvas := set_height canvas height in
  let canvas := clearRect canvas (num_of_Z 0) (num_of_Z 0) width height in
  let canvas :=
    if decide (backgroundColor <> "transparent")
    then fillRect (set_fillStyle canvas backgroundColor)
                  (num_of_Z 0) (num_of_Z 0) width height
    else canvas in
  let '(currentX, canvas) :=
    draw_segments be scaledFontSize regularFontFamily boldFontFamily
                  padding height segments canvas in
  canvas.

(** Lines 93-142: both faces are registered, then the canvas is painted. *)
Definition render (be : Backend) (req : RenderRequest) : M Canvas :=
  let fontFamily := req_fontFamily req in
  let* regularFontFamily := registerLocalFont be fontFamily false in
  let* boldFontFamily := registerLocalFont be fontFamily true in
  ret (render_canvas be req regularFontFamily boldFontFamily).

(** [canvas.toBuffer('image/png')] *)
Definition toBuffer (be : Backend) (canvas : Canvas) : M Buffer :=
  fun w => (be_toBuffer be canvas, w).

Inductive Response :=
| ImageResponse (body : Buffer) (headers : list (string * string))
| JsonResponse (payload : list (string * string)) (status : nat).

Definition png_headers : list (string * string) :=
  [ ("Content-Type", "image/png");
    ("Cache-Control", "public, max-age=31536000") ].

Definition failure_response : Response :=
  JsonResponse [("error", "Failed to generate image")] 500.

(** [console.error(label, error)] *)
Definition console_error (label : string) (error : exn) (w : World) : World :=
  {| registeredFonts := registeredFonts w; fontTable := fontTable w;
     fsProbes := fsProbes w; console := console w ++ [(label, error)] |}.

(** The body of the [try] block. *)
Definition GET_try (be : Backend) (searchParams : URLSearchParams) : M Buffer :=
  let* canvas := render be (request_of searchParams) in
  toBuffer be canvas.

(** [try { ... } catch (error) { ... }]: the handler itself never throws. *)
Definition GET (be : Backend) (searchParams : URLSearchParams)
    (w : World) : Response * World :=
  match GET_try be searchParams w with
  | (inr buffer, w') => (ImageResponse buffer png_headers, w')
  | (inl error, w') =>
      (failure_response, console_error "Error generating PNG:" error w')
  end.

(** The body of a response, when it carries image bytes. *)
Definition image_bytes (r : Response) : option Buffer :=
  match r with
  | ImageResponse body _ => Some body
  | JsonResponse _ _ => None
  end.

Definition status_of (r : Response) : nat :=
  match r with
  | ImageResponse _ _ => 200
  | JsonResponse _ status => status
  end.

(** *** What the specification says about sizing *)

(** The advance width of one run at the scaled size, in the face its flag
    selects. *)
Definition run_width (be : Backend) (scaledFontSize : number)
    (regularFont boldFont : string) (run : TextSegment) : number :=
  be_measureText be
    {| font_px := scaledFontSize;
       font_family := if isBold run then boldFont else regularFont |}
    (text run).

(** The sum of the per-run widths, from zero, left to right. *)
Definition total_width (be : Backend) (scaledFontSize : number)
    (regularFont boldFont : string) (runs : list TextSegment) : number :=
  fold_left num_add
    (map (run_width be scaledFontSize regularFont boldFont) runs)
    (num_of_Z 0).

(** The handle under which a face of an allow-listed family is known to
    the backend. *)
Definition handle (fontFamily : string) (isBold : bool) : string :=
  if isBold then fontFamily +:+ "-bold" else fontFamily.

(** The background fill the specification asks for. *)
Definition background_ops (backgroundColor : string) (width height : number)
    : list DrawOp :=
  if decide (backgroundColor = "transparent") then []
  else [FillRect backgroundColor (num_of_Z 0) (num_of_Z 0) width height].




(** ** Deployments used in the examples *)

(** Every font file is present, the backend accepts every font, a glyph
    advances by [per_em] of the font size, and encoding succeeds. *)
Definition monospace_backend (per_em : Q) : Backend :=
  {| be_cwd := "/app";
     be_existsSync := fun _ => true;
     be_registerFont := fun _ _ => None;
     be_measureText := fun f txt =>
       num_mul (font_px f)
               (Fin (per_em * inject_Z (Z.of_nat (String.length txt))));
     be_toBuffer := fun _ => inr [] |}.

(** The same deployment without its font files. *)
Definition bare_backend : Backend :=
  {| be_cwd := "/app";
     be_existsSync := fun _ => false;
     be_registerFont := fun _ _ => None;
     be_measureText := fun _ _ => num_of_Z 0;
     be_toBuffer := fun _ => inr [] |}.

(** A deployment whose encoder throws. *)
Definition broken_encoder_backend : Backend :=
  {| be_cwd := "/app";
     be_existsSync := fun _ => true;
     be_registerFont := fun _ _ => None;
     be_measureText := fun _ _ => num_of_Z 0;
     be_toBuffer := fun _ => inl (Error "out of memory") |}.

(** ** What the code shows beyond the specification *)

(** [n] delimiters in a row. *)
Fixpoint delims (n : nat) : string :=
  match n with
  | O => ""
  | S n => "__" +:+ delims n
  end.

(** The run with the other weight. *)
Definition toggle (run : TextSegment) : TextSegment :=
  {| text := text run; isBold := negb (isBold run) |}.

(** The [fillText] calls of the second pass, run by run: [x] is the cursor,
    [y] the baseline. *)
Fixpoint draw_ops (be : Backend) (scaledFontSize : number)
    (regularFont boldFont : string) (y x : number)
    (runs : list TextSegment) : list DrawOp :=
  match runs with
  | [] => []
  | run :: rest =>
      let f := {| font_px := scaledFontSize;
                  font_family := if isBold run then boldFont else regularFont |} in
      FillText f "black" "middle" (text run) x y
      :: draw_ops be scaledFontSize regularFont boldFont y
                  (num_add x (be_measureText be f (text run))) rest
  end.




(** A deployment that lacks the bold file of Suisse. *)
Definition regular_only_backend : Backend :=
  {| be_cwd := "/app";
     be_existsSync := fun p =>
       bool_decide (p = "/app/public/fonts/Suisse/suisse-intl-regular.ttf");
     be_registerFont := fun _ _ => None;
     be_measureText := fun _ _ => num_of_Z 0;
     be_toBuffer := fun _ => inr [] |}.


(** The key of a face in [registeredFonts]. *)
Definition cache_key (fontFamily : string) (isBold : bool) : string :=
  fontFamily +:+ (if isBold then "-bold" else "").



(** The text and the font family of a [fillText] call. *)
Definition drawn_text (op : DrawOp) : option (string * string) :=
  match op with
  | FillText f _ _ txt _ _ => Some (txt, font_family f)
  | _ => None
  end.



(** * Properties *)

(** ** Strings *)

Section StringFacts.

Lemma app_String (c : ascii) (s t : string) :
  String c s +:+ t = String c (s +:+ t).
Proof. reflexivity. Qed.

Lemma app_empty_r (s : string) : s +:+ "" = s.
Proof. induction s as [|c s IH]; [done|]. by rewrite app_String, IH. Qed.

Lemma app_assoc' (s t u : string) : (s +:+ t) +:+ u = s +:+ t +:+ u.
Proof. induction s as [|c s IH]; [done|]. by rewrite !app_String, IH. Qed.

Lemma odd_mod2 (i : nat) : (i mod 2 =? 1)%nat = Nat.odd i.
Proof.
  rewrite (Nat.div_mod_eq i 2) at 2.
  rewrite Nat.add_comm, Nat.odd_add_mul_2.
  pose proof (Nat.mod_upper_bound i 2).
  destruct (i mod 2) as [|[|n]]; [done|done|lia].
Qed.

End StringFacts.

(** The scan of a string two characters at a time. *)
Lemma delim_scan_ind (P : string -> Prop) :
  P "" ->
  (forall c, P (String c "")) ->
  (forall c c' rest,
      Str.is_underscore c && Str.is_underscore c' = true ->
      P rest -> P (String c (String c' rest))) ->
  (forall c c' rest,
      Str.is_underscore c && Str.is_underscore c' = false ->
      P (String c' rest) -> P (String c (String c' rest))) ->
  forall s, P s.
Proof.
  intros Hnil Hone Hhit Hmiss s.
  cut (P s /\ forall c, P (String c s)); [tauto|].
  induction s as [|c' rest [IH1 IH2]]; [by split|].
  split; [apply IH2|].
  intros c.
  destruct (Str.is_underscore c && Str.is_underscore c') eqn:E.
  - by apply Hhit.
  - apply Hmiss; [done|]. apply IH2.
Qed.

(** ** Markup parser *)

Lemma split_from_two (cur : string) (c c' : ascii) (rest : string) :
  split_from cur (String c (String c' rest)) =
  if Str.is_underscore c && Str.is_underscore c'
  then cur :: split_from "" rest
  else split_from (cur +:+ String c "") (String c' rest).
Proof. reflexivity. Qed.

Lemma split_from_glue (s cur : string) : split_from cur s = glue cur (split s).
Proof.
  revert cur. induction s as [| c | c c' rest E IH | c c' rest E IH]
    using delim_scan_ind; intros cur; unfold split in *.
  - simpl. by rewrite app_empty_r.
  - done.
  - rewrite !split_from_two, E. simpl. by rewrite app_empty_r.
  - rewrite !split_from_two, E.
    rewrite (IH (cur +:+ String c "")), (IH ("" +:+ String c "")).
    destruct (split_from "" (String c' rest)); simpl;
      by rewrite ?app_assoc'.
Qed.

(** The equations of [split], by the shape of the input. *)
Lemma split_empty : split "" = [""].
Proof. reflexivity. Qed.

Lemma split_single (c : ascii) : split (String c "") = [String c ""].
Proof. reflexivity. Qed.

Lemma split_hit (c c' : ascii) (rest : string) :
  Str.is_underscore c && Str.is_underscore c' = true ->
  split (String c (String c' rest)) = "" :: split rest.
Proof. intros E. unfold split. by rewrite split_from_two, E. Qed.

Lemma split_miss (c c' : ascii) (rest : string) :
  Str.is_underscore c && Str.is_underscore c' = false ->
  split (String c (String c' rest)) =
  glue (String c "") (split (String c' rest)).
Proof.
  intros E. unfold split at 1. rewrite split_from_two, E.
  by rewrite split_from_glue.
Qed.

Lemma split_not_nil (s : string) : split s <> [].
Proof.
  induction s as [| c | c c' rest E IH | c c' rest E IH] using delim_scan_ind.
  - done.
  - done.
  - by rewrite split_hit.
  - rewrite split_miss by done. by destruct (split (String c' rest)).
Qed.

Lemma is_underscore_true (c : ascii) :
  Str.is_underscore c = true -> c = "_"%char.
Proof. unfold Str.is_underscore. by intros ?%Ascii.eqb_eq. Qed.

Lemma delim_hit_eq (c c' : ascii) (rest : string) :
  Str.is_underscore c && Str.is_underscore c' = true ->
  String c (String c' rest) = "__" +:+ rest.
Proof.
  intros [Hc Hc']%andb_prop.
  by rewrite (is_underscore_true _ Hc), (is_underscore_true _ Hc').
Qed.

Lemma join_glue (sep cur : string) (parts : list string) :
  parts <> [] -> Str.join sep (glue cur parts) = cur +:+ Str.join sep parts.
Proof.
  destruct parts as [|p [|p' ps]]; [done| |]; intros _; simpl; [done|].
  by rewrite app_assoc'.
Qed.

(** Joining the parts with the delimiter gives the input back. *)
Lemma join_split (s : string) : Str.join "__" (split s) = s.
Proof.
  induction s as [| c | c c' rest E IH | c c' rest E IH] using delim_scan_ind.
  - done.
  - done.
  - rewrite split_hit by done. rewrite (delim_hit_eq _ _ _ E).
    pose proof (split_not_nil rest).
    destruct (split rest) eqn:Er; [done|].
    change (Str.join "__" ("" :: s :: l)) with ("" +:+ "__" +:+ Str.join "__" (s :: l)).
    by rewrite IH.
  - rewrite split_miss by done.
    rewrite join_glue by apply split_not_nil. by rewrite IH.
Qed.

Lemma length_glue (cur : string) (parts : list string) :
  parts <> [] -> length (glue cur parts) = length parts.
Proof. by destruct parts. Qed.

Lemma count_delims_two (c c' : ascii) (rest : string) :
  count_delims (String c (String c' rest)) =
  if Str.is_underscore c && Str.is_underscore c'
  then S (count_delims rest) else count_delims (String c' rest).
Proof. reflexivity. Qed.

(** One part more than there are delimiter occurrences. *)
Lemma length_split (s : string) : length (split s) = S (count_delims s).
Proof.
  induction s as [| c | c c' rest E IH | c c' rest E IH] using delim_scan_ind.
  - done.
  - done.
  - rewrite split_hit, count_delims_two, E by done. simpl. by rewrite IH.
  - rewrite split_miss, count_delims_two, E by done.
    rewrite length_glue by apply split_not_nil. done.
Qed.

Lemma tagged_from_cons (p : string) (ps : list string) (i : nat) :
  tagged_from i (p :: ps) =
  (if decide (p = "") then [] else [mkSegment p (Nat.odd i)])
  ++ tagged_from (S i) ps.
Proof.
  unfold tagged_from. rewrite imap_cons. cbn [omap list_omap fst snd].
  rewrite Nat.add_0_r.
  rewrite (imap_ext ((λ j p, (i + j, p)) ∘ S) (λ j p, (S i + j, p)) ps)
    by (intros; simpl; f_equal; lia).
  by case_decide.
Qed.

(** The callback of [parseText] appends the tagged non-empty parts. *)
Lemma parse_forEach_at (parts : list string) (i : nat) (acc : list TextSegment) :
  forEach_at
    (fun part index segments =>
       if (0 <? String.length part)%nat
       then push segments {| text := part; isBold := (index mod 2 =? 1)%nat |}
       else segments)
    i parts acc
  = acc ++ tagged_from i parts.
Proof.
  revert i acc. induction parts as [|p ps IH]; intros i acc.
  - simpl. by rewrite app_nil_r.
  - cbn [forEach_at]. rewrite IH, tagged_from_cons, odd_mod2.
    destruct p as [|c p]; simpl.
    + done.
    + unfold push. by rewrite <- app_assoc.
Qed.

Lemma parseText_tagged (s : string) :
  parseText s = tagged_nonempty_parts (split s).
Proof.
  unfold parseText, forEach. rewrite parse_forEach_at. simpl.
  unfold tagged_nonempty_parts, tagged_from. done.
Qed.

Lemma texts_tagged_from (parts : list string) (i : nat) :
  texts (tagged_from i parts) = Str.concat parts.
Proof.
  revert i. induction parts as [|p ps IH]; intros i; [done|].
  rewrite tagged_from_cons.
  destruct p as [|c p]; simpl.
  - apply IH.
  - unfold texts in *. simpl. by rewrite IH.
Qed.

Lemma concat_glue (cur : string) (parts : list string) :
  Str.concat (glue cur parts) = cur +:+ Str.concat parts.
Proof.
  destruct parts as [|p ps]; simpl; [done|]. by rewrite app_assoc'.
Qed.

Lemma remove_delims_two (c c' : ascii) (rest : string) :
  remove_delims (String c (String c' rest)) =
  if Str.is_underscore c && Str.is_underscore c'
  then remove_delims rest else String c (remove_delims (String c' rest)).
Proof. reflexivity. Qed.

Lemma concat_split (s : string) : Str.concat (split s) = remove_delims s.
Proof.
  induction s as [| c | c c' rest E IH | c c' rest E IH] using delim_scan_ind.
  - done.
  - done.
  - rewrite split_hit, remove_delims_two, E by done. simpl. apply IH.
  - rewrite split_miss, remove_delims_two, E by done.
    rewrite concat_glue, IH. done.
Qed.

Lemma split_no_delim (s : string) : count_delims s = 0 -> split s = [s].
Proof.
  induction s as [| c | c c' rest E IH | c c' rest E IH] using delim_scan_ind.
  - done.
  - done.
  - by rewrite count_delims_two, E.
  - rewrite count_delims_two, E. intros H.
    rewrite split_miss, (IH H) by done. done.
Qed.

(** Counting finds an occurrence exactly when there is one. *)
Lemma count_delims_zero (s : string) : count_delims s = 0 <-> ~ has_delim s.
Proof.
  induction s as [| c | c c' rest E IH | c c' rest E IH] using delim_scan_ind.
  - split; [|done]. intros _ (a & b & H). by destruct a.
  - split; [|done]. intros _ (a & b & H).
    destruct a as [|? [|? ?]]; simplify_eq/=.
  - rewrite count_delims_two, E. split; [done|].
    intros H. exfalso. apply H. exists "", rest.
    by rewrite (delim_hit_eq _ _ _ E).
  - rewrite count_delims_two, E, IH. split.
    + intros H (a & b & Hab). destruct a as [|x a].
      * change ("" +:+ "__" +:+ b) with (String "_" (String "_" b)) in Hab.
        injection Hab as -> -> _. discriminate E.
      * rewrite app_String in Hab. simplify_eq. apply H. by exists a, b.
    + intros H (a & b & Hab). apply H. exists (String c a), b.
      by rewrite app_String, <- Hab.
Qed.

Lemma tagged_from_snoc (parts : list string) (p : string) (i : nat) :
  p <> "" ->
  tagged_from i (parts ++ [p]) =
  tagged_from i parts ++ [mkSegment p (Nat.odd (i + length parts))].
Proof.
  intros Hp. revert i. induction parts as [|q qs IH]; intros i.
  - rewrite app_nil_l, !tagged_from_cons. simpl.
    rewrite Nat.add_0_r. by case_decide.
  - rewrite <- app_comm_cons, !tagged_from_cons, IH, <- app_assoc.
    replace (S i + length qs) with (i + length (q :: qs)) by (simpl; lia).
    done.
Qed.

Lemma count_delims_cons_miss (c : ascii) (s : string) :
  Str.is_underscore c = false ->
  count_delims (String c s) = count_delims s.
Proof.
  intros Hc. destruct s as [|c' s]; [done|].
  by rewrite count_delims_two, Hc.
Qed.

(** Nothing of the delimiter is left after the removal. *)
Lemma remove_delims_clean (s : string) : ~ has_delim (remove_delims s).
Proof.
  apply count_delims_zero.
  induction s as [| c | c c' rest E IH | c c' rest E IH] using delim_scan_ind.
  - done.
  - done.
  - by rewrite remove_delims_two, E.
  - rewrite remove_delims_two, E.
    destruct (Str.is_underscore c) eqn:Hc.
    + simpl in E.
      assert (exists Y, remove_delims (String c' rest) = String c' Y) as [Y HY].
      { destruct rest as [|c'' rest]; [by eexists|].
        rewrite remove_delims_two, E. by eexists. }
      rewrite HY in *. by rewrite count_delims_two, Hc, E.
    + by rewrite count_delims_cons_miss.
Qed.

Example parse_three_runs :
  parseText "Hello__World__!" =
  [mkSegment "Hello" false; mkSegment "World" true; mkSegment "!" false].
Proof. reflexivity. Qed.

Example parse_adjacent_delimiters :
  split "a____b" = ["a"; ""; "b"]
  /\ parseText "a____b" = [mkSegment "a" false; mkSegment "b" false].
Proof. by split. Qed.

Example split_three_underscores :
  split "___" = [""; "_"] /\ parseText "___" = [mkSegment "_" true].
Proof. by split. Qed.

Example parseInt_samples :
  parseInt "24" = num_of_Z 24 /\ parseInt " -12px" = num_of_Z (-12)
  /\ parseInt "abc" = NaN /\ parseInt "" = NaN.
Proof. by repeat split. Qed.

(** C1 (amended): [parseText] splits the input on every occurrence of the
    delimiter (joining the parts with the delimiter gives the input back,
    and there is one part more than occurrences) and returns, in order,
    exactly the non-empty parts, each bold iff its index in the split is
    odd.  An input without an occurrence yields one non-bold run equal to
    the input when it is non-empty.  An input with an odd number of
    occurrences whose part behind the last occurrence is non-empty ends
    with that part as a bold run. *)
Theorem parseText_runs (s : string) :
  Str.join "__" (split s) = s
  /\ length (split s) = S (count_delims s)
  /\ parseText s = tagged_nonempty_parts (split s)
  /\ (count_delims s = 0 -> s <> "" -> parseText s = [mkSegment s false])
  /\ (forall p, Nat.odd (count_delims s) = true ->
                last (split s) = Some p -> p <> "" ->
                last (parseText s) = Some (mkSegment p true)).
Proof.
  split; [apply join_split|]. split; [apply length_split|].
  split; [apply parseText_tagged|]. split.
  - intros H0 Hs. rewrite parseText_tagged, (split_no_delim _ H0).
    unfold tagged_nonempty_parts. simpl. by case_decide.
  - intros p Hodd Hlast Hp. apply last_Some in Hlast as [init Hinit].
    rewrite parseText_tagged, Hinit.
    pose proof (length_split s) as Hlen.
    rewrite Hinit, length_app in Hlen. simpl in Hlen.
    change (tagged_nonempty_parts (init ++ [p]))
      with (tagged_from 0 (init ++ [p])).
    rewrite tagged_from_snoc by done. rewrite last_snoc. simpl.
    replace (length init) with (count_delims s) by lia. by rewrite Hodd.
Qed.

Lemma parseText_runs_witness :
  parseText "plain" = [mkSegment "plain" false]
  /\ last (parseText "a__b") = Some (mkSegment "b" true).
Proof.
  split.
  - apply (parseText_runs "plain"); [reflexivity | discriminate].
  - apply (parseText_runs "a__b"); [reflexivity | reflexivity | discriminate].
Defined.

(** An odd number of occurrences does not always leave a trailing bold run:
    on [a__] the part behind the delimiter is empty and is dropped. *)
Lemma parseText_odd_without_bold_tail :
  ~ (forall s, Nat.odd (count_delims s) = true ->
               exists r, last (parseText s) = Some r /\ isBold r = true).
Proof.
  intros H. destruct (H "a__" eq_refl) as (r & Hr & Hb).
  vm_compute in Hr. by simplify_eq.
Qed.

(** C9: the text fields of the runs of [parseText s], concatenated in
    output order, are [s] with every occurrence of the delimiter removed. *)
Theorem parseText_concat (s : string) : texts (parseText s) = remove_delims s.
Proof.
  rewrite parseText_tagged.
  change (tagged_nonempty_parts (split s)) with (tagged_from 0 (split s)).
  by rewrite texts_tagged_from, concat_split.
Qed.

(** ** Font registry *)

Lemma unsupported_message_lists_families (fontFamily : string) :
  exists before,
    unsupported_message fontFamily =
    before +:+ "Roboto, Roboto-Italic, Patua One, Suisse".
Proof.
  exists ("Font " +:+ dquote +:+ fontFamily +:+ dquote +:+
          " is not supported. Supported fonts are: ").
  unfold unsupported_message. simpl Str.join.
  by rewrite !app_assoc'.
Qed.

(** Runs a registration through all its branches. *)
Ltac registry_cases :=
  unfold registerLocalFont, bind, registeredFonts_has, ret, throw, path_join,
    existsSync, registerFont, registeredFonts_add, handle;
  intros; repeat (case_bool_decide || case_match); simplify_eq/=.

(** A registration that returns gives the handle of the face. *)
Lemma registerLocalFont_handle be fontFamily isBold w h w' :
  registerLocalFont be fontFamily isBold w = (inr h, w') ->
  h = handle fontFamily isBold.
Proof.
  registry_cases; done.
Qed.

(** A registration that returns leaves the key of the face in the cache. *)
Lemma registerLocalFont_cached be fontFamily isBold w h w' :
  registerLocalFont be fontFamily isBold w = (inr h, w') ->
  fontFamily +:+ (if isBold then "-bold" else "") ∈ registeredFonts w'.
Proof.
  registry_cases; set_solver.
Qed.

(** A cached key short-cuts the call: nothing is read, nothing changes. *)
Lemma registerLocalFont_hit (be : Backend) (fontFamily : string) (isBold : bool)
    (w : World) :
  fontFamily +:+ (if isBold then "-bold" else "") ∈ registeredFonts w ->
  registerLocalFont be fontFamily isBold w = (inr (handle fontFamily isBold), w).
Proof.
  intros Hin. unfold registerLocalFont, bind, registeredFonts_has.
  by rewrite bool_decide_eq_true_2.
Qed.

(** C3: registration is idempotent.  When a call for a face returns a
    handle, a second call for the same face returns the same handle and
    leaves the world as it is: the cache, the list of paths probed on the
    file system and the list of fonts handed to the backend are unchanged. *)
Theorem registerLocalFont_idempotent be fontFamily isBold w h w' :
  registerLocalFont be fontFamily isBold w = (inr h, w') ->
  registerLocalFont be fontFamily isBold w' = (inr h, w').
Proof.
  intros H.
  rewrite (registerLocalFont_handle _ _ _ _ _ _ H).
  apply registerLocalFont_hit. by eapply registerLocalFont_cached.
Qed.

Lemma registerLocalFont_idempotent_witness :
  let be := monospace_backend 1 in
  let w' := (registerLocalFont be "Suisse" true startup).2 in
  registerLocalFont be "Suisse" true w' = (inr "Suisse-bold", w')
  /\ fsProbes w' = ["/app/public/fonts/Suisse/suisse-intl-bold.ttf"].
Proof.
  split; [|reflexivity].
  apply (registerLocalFont_idempotent (monospace_backend 1) "Suisse" true startup).
  reflexivity.
Defined.

(** A family that the table does not know, not even through an inherited
    property, is refused with the message that lists the families; the
    world is unchanged. *)
Lemma registerLocalFont_unsupported (be : Backend) (fontFamily : string) (isBold : bool)
    (w : World) :
  fontFamily +:+ (if isBold then "-bold" else "") ∉ registeredFonts w ->
  SUPPORTED_FONTS_get fontFamily = None ->
  registerLocalFont be fontFamily isBold w =
  (inl (Error (unsupported_message fontFamily)), w).
Proof.
  intros Hin Hget. unfold registerLocalFont, bind, registeredFonts_has.
  rewrite bool_decide_eq_false_2 by done. by rewrite Hget.
Qed.

(** A name of a property of [Object.prototype] passes the check of the
    table and fails when the path is joined. *)
Lemma registerLocalFont_inherited (be : Backend) (fontFamily : string) (isBold : bool)
    (w : World) :
  fontFamily +:+ (if isBold then "-bold" else "") ∉ registeredFonts w ->
  fontFamily ∈ Object_prototype_keys ->
  registerLocalFont be fontFamily isBold w =
  (inl (TypeError invalid_path_message), w).
Proof.
  intros Hin Hkey. unfold registerLocalFont, bind, registeredFonts_has.
  rewrite bool_decide_eq_false_2 by done.
  assert (SUPPORTED_FONTS_get fontFamily = Some Inherited) as ->; [|done].
  unfold SUPPORTED_FONTS_get.
  assert (own_property SUPPORTED_FONTS fontFamily = None) as ->.
  { unfold Object_prototype_keys in Hkey.
    repeat (apply elem_of_cons in Hkey as [->|Hkey]; [reflexivity|]).
    by apply elem_of_nil in Hkey. }
  by rewrite decide_True.
Qed.

(** C4 at the family [constructor], which is not in the allow-list and not
    cached at start-up: the call fails, but with the [TypeError] of
    [path.join], not with the error that lists the supported families. *)
Theorem registerLocalFont_constructor (be : Backend) :
  ~ allow_listed "constructor"
  /\ ("constructor" ∉ registeredFonts startup)
  /\ registerLocalFont be "constructor" false startup =
     (inl (TypeError invalid_path_message), startup)
  /\ registerLocalFont be "constructor" false startup <>
     (inl (Error (unsupported_message "constructor")), startup).
Proof.
  split; [|split; [|split]].
  - unfold allow_listed. simpl. intros H.
    repeat (apply elem_of_cons in H as [H|H]; [discriminate H|]).
    by apply elem_of_nil in H.
  - set_solver.
  - apply registerLocalFont_inherited; [set_solver|].
    unfold Object_prototype_keys. set_solver.
  - rewrite registerLocalFont_inherited; [done|set_solver|].
    unfold Object_prototype_keys. set_solver.
Qed.

Lemma own_property_None {V : Type} (obj : list (string * V)) (key : string) :
  key ∉ Object_keys obj -> own_property obj key = None.
Proof.
  induction obj as [|[k v] obj IH]; [done|]. simpl.
  intros [Hk Hobj]%not_elem_of_cons.
  rewrite decide_False by done. by apply IH.
Qed.

(** Outside the allow-list and the inherited properties the claim of C4
    holds: the call fails with the message that lists the families and
    leaves the world as it is. *)
Lemma registerLocalFont_rejects (be : Backend) (fontFamily : string)
    (isBold : bool) (w : World) :
  ~ allow_listed fontFamily ->
  fontFamily ∉ Object_prototype_keys ->
  fontFamily +:+ (if isBold then "-bold" else "") ∉ registeredFonts w ->
  registerLocalFont be fontFamily isBold w =
  (inl (Error (unsupported_message fontFamily)), w).
Proof.
  intros Hallow Hproto Hcache.
  apply registerLocalFont_unsupported; [done|].
  unfold SUPPORTED_FONTS_get.
  rewrite own_property_None by done. by rewrite decide_False.
Qed.

(** ** Numbers *)

Section Numbers.
Local Open Scope Q_scope.





End Numbers.


(** ** Request handler *)

(** The first pass adds up the widths of the runs and paints nothing. *)
Lemma measure_segments_spec be size regular bold segments canvas :
  let r := measure_segments be size regular bold segments canvas in
  r.1 = fold_left num_add (map (run_width be size regular bold) segments)
                  (num_of_Z 0)
  /\ width r.2 = width canvas /\ height r.2 = height canvas
  /\ ops r.2 = ops canvas.
Proof.
  unfold measure_segments, forEach.
  generalize (num_of_Z 0) as acc. generalize 0%nat as i.
  revert canvas. induction segments as [|seg segs IH]; intros canvas i acc.
  - done.
  - cbn [forEach_at map fold_left]. cbv zeta.
    specialize (IH (set_font canvas
      {| font_px := size;
         font_family := if isBold seg then bold else regular |}) (S i)).
    apply IH.
Qed.

(** The second pass keeps the size of the canvas and appends one
    [fillText] per run, in black. *)
Lemma draw_segments_spec be size regular bold padding h segments canvas :
  let r := draw_segments be size regular bold padding h segments canvas in
  width r.2 = width canvas /\ height r.2 = height canvas
  /\ exists texts,
       ops r.2 = ops canvas ++ texts
       /\ length texts = length segments
       /\ Forall (fun op => exists f b t x y,
                    op = FillText f "black" b t x y) texts.
Proof.
  unfold draw_segments, forEach.
  generalize padding as x. generalize 0%nat as i.
  revert canvas. induction segments as [|seg segs IH]; intros canvas i x.
  - simpl. repeat split. exists []. by rewrite app_nil_r.
  - cbn [forEach_at]. cbv zeta.
    match goal with
    | |- context [forEach_at _ (S i) segs (?x', ?c')] =>
        destruct (IH c' (S i) x') as (Hw & Hh & texts & Hops & Hlen & Hall)
    end.
    rewrite Hw, Hh. repeat split.
    eexists (_ :: texts). rewrite Hops. simpl. rewrite <- app_assoc.
    split; [reflexivity|]. split; [by rewrite Hlen|].
    constructor; [|done]. by repeat eexists.
Qed.

(** The canvas that [render_canvas] returns: its size and what is painted
    on it. *)
Lemma render_canvas_shape be req regular bold :
  let scale := req_scale req in
  let scaledFontSize := num_mul (req_fontSize req) scale in
  let padding := num_mul (num_of_Z 8) scale in
  let totalWidth :=
    total_width be scaledFontSize regular bold (parseText (req_text req)) in
  let W := Math_ceil (num_add totalWidth (num_mul padding (num_of_Z 2))) in
  let H := Math_ceil (num_add scaledFontSize (num_mul padding (num_of_Z 2))) in
  let canvas := render_canvas be req regular bold in
  width canvas = W /\ height canvas = H
  /\ exists texts,
       ops canvas =
         ClearRect (num_of_Z 0) (num_of_Z 0) W H
         :: background_ops (req_backgroundColor req) W H ++ texts
       /\ length texts = length (parseText (req_text req))
       /\ Forall (fun op => exists f b t x y,
                    op = FillText f "black" b t x y) texts.
Proof.
  intros scale scaledFontSize padding totalWidth W H canvas.
  subst canvas. unfold render_canvas.
  fold scale. fold scaledFontSize.
  destruct (measure_segments_spec be scaledFontSize regular bold
              (parseText (req_text req))
              (createCanvas (num_of_Z 1) (num_of_Z 1))) as (Htw & _).
  destruct (measure_segments _ _ _ _ _ _) as [tw c1]. simpl in Htw.
  fold (total_width be scaledFontSize regular bold (parseText (req_text req)))
    in Htw. fold totalWidth in Htw. subst tw.
  fold padding. fold W. fold H.
  match goal with
  | |- context [draw_segments be scaledFontSize regular bold padding H ?segs ?c] =>
      destruct (draw_segments_spec be scaledFontSize regular bold padding H
                  segs c) as (Hw & Hh & texts & Hops & Hlen & Hall);
      destruct (draw_segments be scaledFontSize regular bold padding H segs c)
        as [currentX c2]
  end.
  simpl in Hw, Hh, Hops.
  rewrite Hw, Hh, Hops. unfold background_ops.
  split; [by case_decide|]. split; [by case_decide|].
  exists texts. split; [|done].
  repeat case_decide; try done; simpl; congruence.
Qed.

(** A request that renders has registered both faces. *)
Lemma render_inv be req w canvas w' :
  render be req w = (inr canvas, w') ->
  canvas = render_canvas be req (handle (req_fontFamily req) false)
                         (handle (req_fontFamily req) true)
  /\ exists w1,
       registerLocalFont be (req_fontFamily req) false w
         = (inr (handle (req_fontFamily req) false), w1)
       /\ registerLocalFont be (req_fontFamily req) true w1
         = (inr (handle (req_fontFamily req) true), w').
Proof.
  unfold render, bind at 1.
  destruct (registerLocalFont be (req_fontFamily req) false w)
    as [[e|r] w1] eqn:E1; [done|].
  unfold bind.
  destruct (registerLocalFont be (req_fontFamily req) true w1)
    as [[e|b] w2] eqn:E2; [done|].
  unfold ret. intros [= <- <-].
  pose proof (registerLocalFont_handle _ _ _ _ _ _ E1) as ->.
  pose proof (registerLocalFont_handle _ _ _ _ _ _ E2) as ->.
  split; [done|]. exists w1. by split.
Qed.


(** An image response carries the encoding of the canvas of the request. *)
Lemma GET_image_inv be searchParams w body headers w' :
  GET be searchParams w = (ImageResponse body headers, w') ->
  headers = png_headers
  /\ exists canvas,
       render be (request_of searchParams) w = (inr canvas, w')
       /\ be_toBuffer be canvas = inr body.
Proof.
  unfold GET, GET_try, bind, toBuffer.
  destruct (render be (request_of searchParams) w) as [[e|canvas] w1];
    [done|].
  destruct (be_toBuffer be canvas) as [e|buf] eqn:E; [done|].
  intros [= <- <- <-]. split; [done|]. by exists canvas.
Qed.





(** C6: the handler converts every failure of the [try] block, whatever
    the thrown value, into the one fixed JSON payload with status 500,
    which carries no image bytes and nothing of the thrown value (that goes
    to the console); an image is returned only when the block completes. *)
Theorem GET_failure_is_opaque be searchParams w :
  (forall e w1,
      GET_try be searchParams w = (inl e, w1) ->
      GET be searchParams w =
        (failure_response, console_error "Error generating PNG:" e w1))
  /\ (forall body w1,
        GET_try be searchParams w = (inr body, w1) ->
        GET be searchParams w = (ImageResponse body png_headers, w1))
  /\ ((GET be searchParams w).1 = failure_response
      \/ exists body, (GET be searchParams w).1 = ImageResponse body png_headers)
  /\ image_bytes failure_response = None
  /\ status_of failure_response = 500%nat.
Proof.
  unfold GET.
  destruct (GET_try be searchParams w) as [[e|body] w1].
  - repeat split; intros; simplify_eq/=; auto.
  - repeat split; intros; simplify_eq/=; eauto.
Qed.

Lemma GET_failure_is_opaque_witness :
  GET bare_backend [] startup =
    (failure_response,
     console_error "Error generating PNG:"
       (Error "Font file not found: /app/public/fonts/Suisse/suisse-intl-regular.ttf")
       (GET_try bare_backend [] startup).2)
  /\ (GET broken_encoder_backend [] startup).1 = failure_response
  /\ (GET (monospace_backend 1) [] startup).1 = ImageResponse [] png_headers.
Proof.
  split; [|split].
  - apply (GET_failure_is_opaque bare_backend [] startup). reflexivity.
  - rewrite (proj1 (GET_failure_is_opaque broken_encoder_backend [] startup)
               (Error "out of memory")
               (GET_try broken_encoder_backend [] startup).2 eq_refl).
    reflexivity.
  - rewrite (proj1 (proj2 (GET_failure_is_opaque (monospace_backend 1) []
                             startup))
               [] (GET_try (monospace_backend 1) [] startup).2 eq_refl).
    reflexivity.
Defined.

(** C7: a parameter that is absent from the query takes its documented
    default: text [Hello World], font [Suisse], font_size 24,
    background_color [transparent], scale 2. *)
Theorem request_defaults (searchParams : URLSearchParams) :
  (searchParams_get searchParams "text" = None ->
     req_text (request_of searchParams) = "Hello World")
  /\ (searchParams_get searchParams "font" = None ->
        req_fontFamily (request_of searchParams) = "Suisse")
  /\ (searchParams_get searchParams "font_size" = None ->
        req_fontSize (request_of searchParams) = num_of_Z 24)
  /\ (searchParams_get searchParams "background_color" = None ->
        req_backgroundColor (request_of searchParams) = "transparent")
  /\ (searchParams_get searchParams "scale" = None ->
        req_scale (request_of searchParams) = num_of_Z 2).
Proof.
  unfold request_of; simpl.
  repeat split; intros ->; reflexivity.
Qed.

Lemma request_defaults_witness :
  req_text (request_of []) = "Hello World"
  /\ req_fontFamily (request_of []) = "Suisse"
  /\ req_fontSize (request_of []) = num_of_Z 24
  /\ req_backgroundColor (request_of []) = "transparent"
  /\ req_scale (request_of [("text", "Hi"); ("font_size", "12")]) = num_of_Z 2.
Proof.
  split; [|split; [|split; [|split]]].
  - apply (request_defaults []). reflexivity.
  - apply (request_defaults []). reflexivity.
  - apply (request_defaults []). reflexivity.
  - apply (request_defaults []). reflexivity.
  - apply (request_defaults [("text", "Hi"); ("font_size", "12")]).
    reflexivity.
Defined.

(** *** Scaling *)

Section Scaling.
Local Open Scope Q_scope.



End Scaling.





(** *** Requests without runs *)







(** * Further properties of the code *)

(** ** Markup parser *)

Lemma tagged_from_Forall (P : string -> Prop) (parts : list string) (i : nat) :
  Forall P parts -> Forall (fun run => P (text run)) (tagged_from i parts).
Proof.
  intros H. revert i. induction H as [|p ps Hp Hps IH]; intros i.
  - constructor.
  - rewrite tagged_from_cons. apply Forall_app. split; [|apply IH].
    case_decide; by repeat constructor.
Qed.

Lemma tagged_from_nonempty (parts : list string) (i : nat) :
  Forall (fun run => text run <> "") (tagged_from i parts).
Proof.
  revert i. induction parts as [|p ps IH]; intros i.
  - constructor.
  - rewrite tagged_from_cons. apply Forall_app. split; [|apply IH].
    case_decide; by repeat constructor.
Qed.

Lemma length_tagged_from (parts : list string) (i : nat) :
  length (tagged_from i parts) <= length parts.
Proof.
  revert i. induction parts as [|p ps IH]; intros i; [done|].
  rewrite tagged_from_cons, length_app. specialize (IH (S i)).
  case_decide; simpl; lia.
Qed.

Lemma tagged_from_toggle (parts : list string) (i : nat) :
  tagged_from (S i) parts = map toggle (tagged_from i parts).
Proof.
  revert i. induction parts as [|p ps IH]; intros i; [done|].
  rewrite !tagged_from_cons, map_app, <- IH. f_equal.
  case_decide; [done|]. simpl. unfold toggle. simpl.
  by rewrite Nat.odd_succ, <- Nat.negb_odd.
Qed.

(** A part that starts with another character than the underscore keeps
    it as its first character. *)
Lemma split_head_miss (c : ascii) (rest : string) :
  Str.is_underscore c = false ->
  exists p ps, split (String c rest) = String c p :: ps.
Proof.
  intros Hc. destruct rest as [|c' rest]; [by eexists _, _|].
  rewrite split_miss by (by rewrite Hc).
  pose proof (split_not_nil (String c' rest)).
  destruct (split (String c' rest)) as [|p ps]; [done|].
  by eexists _, _.
Qed.

(** No part of the split contains the delimiter. *)
Lemma split_parts_clean (s : string) :
  Forall (fun p => count_delims p = 0) (split s).
Proof.
  induction s as [| c | c c' rest E IH | c c' rest E IH] using delim_scan_ind.
  - by repeat constructor.
  - by repeat constructor.
  - rewrite split_hit by done. by constructor.
  - rewrite split_miss by done.
    destruct (Str.is_underscore c) eqn:Hc.
    + simpl in E.
      destruct (split_head_miss c' rest E) as (p & ps & Hsplit).
      rewrite Hsplit in *. apply Forall_cons in IH as [Hp Hps].
      constructor; [|done].
      change (String c "" +:+ String c' p) with (String c (String c' p)).
      by rewrite count_delims_two, Hc, E.
    + destruct (split (String c' rest)) as [|p ps]; [by repeat constructor|].
      apply Forall_cons in IH as [Hp Hps]. constructor; [|done].
      change (String c "" +:+ p) with (String c p).
      by rewrite count_delims_cons_miss.
Qed.

(** X1: every run that [parseText] returns has a non-empty text and
    contains no delimiter. *)
Theorem parseText_runs_wellformed (s : string) :
  Forall (fun run => text run <> "" /\ ~ has_delim (text run)) (parseText s).
Proof.
  rewrite parseText_tagged.
  change (tagged_nonempty_parts (split s)) with (tagged_from 0 (split s)).
  apply Forall_and. split; [apply tagged_from_nonempty|].
  apply (tagged_from_Forall (fun p => ~ has_delim p)).
  eapply Forall_impl; [apply split_parts_clean|].
  intros p Hp. by apply count_delims_zero.
Qed.

(** X2: there are at most as many runs as delimiter occurrences plus one. *)
Theorem parseText_length_bound (s : string) :
  length (parseText s) <= S (count_delims s).
Proof.
  rewrite parseText_tagged, <- length_split.
  apply (length_tagged_from (split s) 0).
Qed.

Lemma remove_delims_empty (s : string) :
  remove_delims s = "" <-> exists n, s = delims n.
Proof.
  split.
  - induction s as [| c | c c' rest E IH | c c' rest E IH]
      using delim_scan_ind.
    + by exists 0.
    + done.
    + rewrite remove_delims_two, E. intros [n ->]%IH.
      exists (S n). by rewrite (delim_hit_eq _ _ _ E).
    + by rewrite remove_delims_two, E.
  - intros [n ->]. induction n as [|n IH]; [done|].
    change (delims (S n)) with (String "_" (String "_" (delims n))).
    by rewrite remove_delims_two.
Qed.

(** X3: [parseText] returns no run exactly for the inputs that consist of
    delimiters only (the empty input among them). *)
Theorem parseText_nil_iff (s : string) :
  parseText s = [] <-> exists n, s = delims n.
Proof.
  rewrite <- remove_delims_empty, <- concat_split.
  rewrite <- (texts_tagged_from (split s) 0).
  rewrite parseText_tagged.
  change (tagged_nonempty_parts (split s)) with (tagged_from 0 (split s)).
  split; [by intros ->|].
  pose proof (tagged_from_nonempty (split s) 0) as Hne.
  destruct (tagged_from 0 (split s)) as [|[t b] runs]; [done|].
  apply Forall_cons in Hne as [Ht _]. unfold texts. simpl in *.
  by destruct t.
Qed.

Lemma has_delim_snoc (a t : string) : has_delim a -> has_delim (a +:+ t).
Proof.
  intros (x & y & ->). exists x, (y +:+ t). by rewrite !app_assoc'.
Qed.

(** A delimiter behind a text that has none and does not end in an
    underscore closes that text as one part. *)
Lemma split_app_delim (a b : string) :
  count_delims (a +:+ "_") = 0 ->
  split (a +:+ "__" +:+ b) = a :: split b.
Proof.
  induction a as [| c | c c' rest E IH | c c' rest E IH] using delim_scan_ind.
  - intros _. change (split (String "_" (String "_" b)) = "" :: split b).
    by rewrite split_hit.
  - change (count_delims (String c (String "_" "")) = 0 ->
            split (String c (String "_" (String "_" b)))
            = String c "" :: split b).
    rewrite count_delims_two.
    destruct (Str.is_underscore c && Str.is_underscore "_") eqn:E; [done|].
    intros _. rewrite split_miss by done. by rewrite split_hit.
  - change (count_delims (String c (String c' (rest +:+ "_"))) = 0 ->
            split (String c (String c' rest) +:+ "__" +:+ b)
            = String c (String c' rest) :: split b).
    by rewrite count_delims_two, E.
  - change (count_delims (String c (String c' (rest +:+ "_"))) = 0 ->
            split (String c (String c' (rest +:+ "__" +:+ b)))
            = String c (String c' rest) :: split b).
    rewrite count_delims_two, E. intros H.
    rewrite split_miss by done.
    change (String c' (rest +:+ "__" +:+ b))
      with (String c' rest +:+ "__" +:+ b).
    by rewrite (IH H).
Qed.

(** X4: the delimiter is a toggle.  Behind a text [a] without delimiter
    that does not end in an underscore, a delimiter flips the weight of
    every run of what follows. *)
Theorem parseText_toggle (a b : string) :
  count_delims (a +:+ "_") = 0 ->
  parseText (a +:+ "__" +:+ b) = parseText a ++ map toggle (parseText b).
Proof.
  intros Ha.
  assert (count_delims a = 0) as Ha0.
  { apply count_delims_zero. intros H.
    by apply (has_delim_snoc a "_"), count_delims_zero in H. }
  rewrite !parseText_tagged, (split_app_delim a b Ha), (split_no_delim a Ha0).
  change (tagged_nonempty_parts (a :: split b))
    with (tagged_from 0 (a :: split b)).
  change (tagged_nonempty_parts [a]) with (tagged_from 0 [a]).
  change (tagged_nonempty_parts (split b)) with (tagged_from 0 (split b)).
  rewrite !tagged_from_cons, tagged_from_toggle.
  change (tagged_from 1 []) with (@nil TextSegment).
  by rewrite app_nil_r.
Qed.

Lemma parseText_toggle_witness :
  parseText ("Hello" +:+ "__" +:+ "World__!") =
  parseText "Hello" ++ map toggle (parseText "World__!").
Proof. apply (parseText_toggle "Hello" "World__!"). reflexivity. Defined.

(** ** Font registry *)







(** Runs a registration through all its branches, to the end. *)
Ltac registry_steps :=
  unfold registerLocalFont, bind, registeredFonts_has, path_join,
    existsSync, registerFont, registeredFonts_add, ret, throw;
  intros;
  repeat (case_bool_decide || case_match
          || (progress unfold ret, throw in *));
  simplify_eq/=.

(** A call that fails caches nothing and registers nothing. *)
Lemma registerLocalFont_failure_keeps be fontFamily isBold w e w' :
  registerLocalFont be fontFamily isBold w = (inl e, w') ->
  registeredFonts w' = registeredFonts w
  /\ fontTable w' = fontTable w
  /\ console w' = console w.
Proof. registry_steps; by repeat split. Qed.

(** X7: a registration that fails, for whatever reason, leaves the cache,
    the font table of the backend and the console as they were. *)
Theorem registerLocalFont_failure_unchanged be fontFamily isBold w e w' :
  registerLocalFont be fontFamily isBold w = (inl e, w') ->
  registeredFonts w' = registeredFonts w
  /\ fontTable w' = fontTable w
  /\ console w' = console w.
Proof. apply registerLocalFont_failure_keeps. Qed.

Lemma registerLocalFont_failure_unchanged_witness :
  let w' := (registerLocalFont bare_backend "Suisse" false startup).2 in
  registeredFonts w' = registeredFonts startup
  /\ fontTable w' = fontTable startup
  /\ console w' = console startup.
Proof.
  apply (registerLocalFont_failure_unchanged bare_backend "Suisse" false startup
           (Error "Font file not found: /app/public/fonts/Suisse/suisse-intl-regular.ttf")).
  reflexivity.
Defined.

(** A call only ever adds: to the cache, to the font table of the backend
    and to the probes; it leaves the console alone. *)
Lemma registerLocalFont_grows be fontFamily isBold w :
  let w' := (registerLocalFont be fontFamily isBold w).2 in
  registeredFonts w ⊆ registeredFonts w'
  /\ fontTable w `prefix_of` fontTable w'
  /\ fsProbes w `prefix_of` fsProbes w'
  /\ console w' = console w.
Proof.
  registry_steps; repeat split; try done;
    try (by apply prefix_app_r); by apply union_subseteq_r.
Qed.

Lemma render_grows be req w :
  let w' := (render be req w).2 in
  registeredFonts w ⊆ registeredFonts w'
  /\ fontTable w `prefix_of` fontTable w'
  /\ fsProbes w `prefix_of` fsProbes w'
  /\ console w' = console w.
Proof.
  unfold render, bind.
  pose proof (registerLocalFont_grows be (req_fontFamily req) false w) as H1.
  destruct (registerLocalFont be (req_fontFamily req) false w)
    as [[e|r] w1]; [exact H1|].
  pose proof (registerLocalFont_grows be (req_fontFamily req) true w1) as H2.
  destruct (registerLocalFont be (req_fontFamily req) true w1)
    as [[e|b] w2]; simpl in *;
    destruct H1 as (Ha & Hb & Hc & Hd), H2 as (Ha' & Hb' & Hc' & Hd');
    (split; [by etrans|]; split; [by etrans|]; split; [by etrans|];
     congruence).
Qed.

(** X8: a request never takes anything back: the cache only gains keys,
    and the font table of the backend, the probes of the file system and
    the console only grow at their ends. *)
Theorem GET_append_only be searchParams w :
  let w' := (GET be searchParams w).2 in
  registeredFonts w ⊆ registeredFonts w'
  /\ fontTable w `prefix_of` fontTable w'
  /\ fsProbes w `prefix_of` fsProbes w'
  /\ console w `prefix_of` console w'.
Proof.
  unfold GET, GET_try, bind, toBuffer.
  pose proof (render_grows be (request_of searchParams) w) as H.
  destruct (render be (request_of searchParams) w) as [[e|canvas] w1];
    simpl in *; destruct H as (Ha & Hb & Hc & Hd).
  - repeat split; try done. rewrite Hd. by apply prefix_app_r.
  - destruct (be_toBuffer be canvas); simpl; repeat split; try done;
      rewrite Hd; [by apply prefix_app_r | done].
Qed.











(** X10: the cache keys of two families can coincide.  Once the bold face
    of [family] is cached, a call for the regular face of the family named
    [family-bold] finds that key and returns its handle without consulting
    the allow-list, the file system or the backend. *)
Theorem registerLocalFont_key_alias be be' fontFamily w h w' :
  registerLocalFont be fontFamily true w = (inr h, w') ->
  registerLocalFont be' (fontFamily +:+ "-bold") false w' = (inr h, w').
Proof.
  intros H.
  pose proof (registerLocalFont_handle _ _ _ _ _ _ H) as ->.
  apply registerLocalFont_cached in H.
  apply (registerLocalFont_hit be' (fontFamily +:+ "-bold") false).
  by rewrite app_empty_r.
Qed.

Lemma registerLocalFont_key_alias_witness :
  let w' := (registerLocalFont (monospace_backend 1) "Suisse" true startup).2 in
  ~ allow_listed "Suisse-bold"
  /\ registerLocalFont bare_backend "Suisse-bold" false startup
     = (inl (Error (unsupported_message "Suisse-bold")), startup)
  /\ registerLocalFont bare_backend ("Suisse" +:+ "-bold") false w'
     = (inr "Suisse-bold", w').
Proof.
  split; [|split].
  - unfold allow_listed. simpl. intros H.
    repeat (apply elem_of_cons in H as [H|H]; [discriminate H|]).
    by apply elem_of_nil in H.
  - reflexivity.
  - apply (registerLocalFont_key_alias (monospace_backend 1) bare_backend
             "Suisse" startup).
    reflexivity.
Defined.

(** With both faces cached a request renders without touching the
    world. *)
Lemma render_warm (be : Backend) (req : RenderRequest) (w : World) :
  cache_key (req_fontFamily req) false ∈ registeredFonts w ->
  cache_key (req_fontFamily req) true ∈ registeredFonts w ->
  render be req w =
  (inr (render_canvas be req (handle (req_fontFamily req) false)
                      (handle (req_fontFamily req) true)), w).
Proof.
  intros Hr Hb. unfold render, bind.
  rewrite (registerLocalFont_hit be _ false w Hr).
  by rewrite (registerLocalFont_hit be _ true w Hb).
Qed.

(** X11: once both faces of a family are cached, a request for that family
    is served in any deployment, also one that has lost the font files:
    the cache, the font table of the backend and the probes stay as they
    are, and the answer is the encoding of the canvas, or the failure
    payload when the encoder throws. *)
Theorem GET_warm_cache (be : Backend) (searchParams : URLSearchParams)
    (w : World) :
  let req := request_of searchParams in
  let canvas := render_canvas be req (handle (req_fontFamily req) false)
                              (handle (req_fontFamily req) true) in
  cache_key (req_fontFamily req) false ∈ registeredFonts w ->
  cache_key (req_fontFamily req) true ∈ registeredFonts w ->
  GET be searchParams w =
  match be_toBuffer be canvas with
  | inr body => (ImageResponse body png_headers, w)
  | inl e => (failure_response, console_error "Error generating PNG:" e w)
  end.
Proof.
  intros req canvas Hr Hb. unfold GET, GET_try, bind, toBuffer.
  fold req. rewrite (render_warm be req w Hr Hb). fold canvas.
  by destruct (be_toBuffer be canvas).
Qed.

Lemma GET_warm_cache_witness :
  let w := (GET (monospace_backend 1) [] startup).2 in
  GET bare_backend [("text", "again")] w =
  (ImageResponse [] png_headers, w).
Proof.
  apply (GET_warm_cache bare_backend [("text", "again")]
           (GET (monospace_backend 1) [] startup).2).
  - apply (bool_decide_eq_true_1 (_ ∈ _)). by vm_compute.
  - apply (bool_decide_eq_true_1 (_ ∈ _)). by vm_compute.
Defined.

(** X12: repeating a request that was answered with an image gives the
    same image and changes nothing. *)
Theorem GET_repeat be searchParams w body headers w' :
  GET be searchParams w = (ImageResponse body headers, w') ->
  GET be searchParams w' = (ImageResponse body headers, w').
Proof.
  intros H. apply GET_image_inv in H as (-> & canvas & Hrender & Hbuf).
  apply render_inv in Hrender as (-> & w1 & H1 & H2).
  pose proof (registerLocalFont_grows be
                (req_fontFamily (request_of searchParams)) true w1) as Hg.
  rewrite H2 in Hg. destruct Hg as (Hsub & _).
  apply registerLocalFont_cached in H1. apply registerLocalFont_cached in H2.
  unfold GET, GET_try, bind, toBuffer.
  rewrite (render_warm be (request_of searchParams) w');
    [by rewrite Hbuf| |done].
  by apply Hsub.
Qed.

Lemma GET_repeat_witness :
  let w' := (GET (monospace_backend 1) [("text", "Hi")] startup).2 in
  GET (monospace_backend 1) [("text", "Hi")] w' =
  (ImageResponse [] png_headers, w').
Proof.
  apply (GET_repeat (monospace_backend 1) [("text", "Hi")] startup).
  reflexivity.
Defined.

(** X13: a request for a family outside the allow-list (and outside the
    inherited property names) that is not cached is answered with the
    failure payload; the error that lists the supported families goes to
    the console, and nothing else in the world changes: no file is probed
    and nothing is registered. *)
Theorem GET_unsupported_font (be : Backend) (searchParams : URLSearchParams)
    (w : World) :
  let fontFamily := req_fontFamily (request_of searchParams) in
  ~ allow_listed fontFamily ->
  fontFamily ∉ Object_prototype_keys ->
  cache_key fontFamily false ∉ registeredFonts w ->
  GET be searchParams w =
  (failure_response,
   console_error "Error generating PNG:"
                 (Error (unsupported_message fontFamily)) w).
Proof.
  intros fontFamily Hallow Hproto Hkey.
  unfold GET, GET_try, render, bind. fold fontFamily.
  by rewrite (registerLocalFont_rejects be fontFamily false w Hallow Hproto Hkey).
Qed.

Lemma GET_unsupported_font_witness :
  GET (monospace_backend 1) [("font", "Comic Sans")] startup =
  (failure_response,
   console_error "Error generating PNG:"
                 (Error (unsupported_message "Comic Sans")) startup).
Proof.
  apply (GET_unsupported_font (monospace_backend 1) [("font", "Comic Sans")]
           startup).
  - unfold allow_listed. simpl. intros H.
    repeat (apply elem_of_cons in H as [H|H]; [discriminate H|]).
    by apply elem_of_nil in H.
  - simpl. intros H.
    repeat (apply elem_of_cons in H as [H|H]; [discriminate H|]).
    by apply elem_of_nil in H.
  - apply not_elem_of_empty.
Defined.

(** X14: the [catch] does not undo a registration.  When the regular face
    registers and the bold face fails, the request is answered with the
    failure payload and the regular face stays cached and registered. *)
Theorem GET_partial_registration be searchParams w r w1 e w2 :
  let fontFamily := req_fontFamily (request_of searchParams) in
  registerLocalFont be fontFamily false w = (inr r, w1) ->
  registerLocalFont be fontFamily true w1 = (inl e, w2) ->
  GET be searchParams w =
    (failure_response, console_error "Error generating PNG:" e w2)
  /\ cache_key fontFamily false ∈ registeredFonts (GET be searchParams w).2.
Proof.
  intros fontFamily H1 H2.
  assert (GET be searchParams w =
          (failure_response, console_error "Error generating PNG:" e w2)) as ->.
  { unfold GET, GET_try, render, bind. fold fontFamily. by rewrite H1, H2. }
  split; [done|]. simpl.
  apply registerLocalFont_failure_keeps in H2 as (-> & _).
  by apply registerLocalFont_cached in H1.
Qed.

Lemma GET_partial_registration_witness :
  (GET regular_only_backend [] startup).1 = failure_response
  /\ "Suisse" ∈ registeredFonts (GET regular_only_backend [] startup).2
  /\ fontTable (GET regular_only_backend [] startup).2
     = [("/app/public/fonts/Suisse/suisse-intl-regular.ttf", "Suisse")].
Proof.
  destruct (GET_partial_registration regular_only_backend [] startup
              "Suisse"
              (registerLocalFont regular_only_backend "Suisse" false startup).2
              (Error "Font file not found: /app/public/fonts/Suisse/suisse-intl-bold.ttf")
              (registerLocalFont regular_only_backend "Suisse" true
                 (registerLocalFont regular_only_backend "Suisse" false
                    startup).2).2
              eq_refl eq_refl) as (HGET & Hkey).
  split; [by rewrite HGET|]. split; [exact Hkey|by rewrite HGET].
Defined.

(** ** Request handler *)

(** X15: a parameter that is present with an empty value takes its default
    as an absent one does. *)
Theorem request_empty_values (searchParams : URLSearchParams) :
  (searchParams_get searchParams "text" = Some "" ->
     req_text (request_of searchParams) = "Hello World")
  /\ (searchParams_get searchParams "font" = Some "" ->
        req_fontFamily (request_of searchParams) = "Suisse")
  /\ (searchParams_get searchParams "font_size" = Some "" ->
        req_fontSize (request_of searchParams) = num_of_Z 24)
  /\ (searchParams_get searchParams "background_color" = Some "" ->
        req_backgroundColor (request_of searchParams) = "transparent")
  /\ (searchParams_get searchParams "scale" = Some "" ->
        req_scale (request_of searchParams) = num_of_Z 2).
Proof.
  unfold request_of; simpl.
  repeat split; intros ->; reflexivity.
Qed.

Lemma request_empty_values_witness :
  req_text (request_of [("text", ""); ("scale", "")]) = "Hello World"
  /\ req_scale (request_of [("text", ""); ("scale", "")]) = num_of_Z 2.
Proof.
  split.
  - apply (request_empty_values [("text", ""); ("scale", "")]). reflexivity.
  - apply (request_empty_values [("text", ""); ("scale", "")]). reflexivity.
Defined.

(** The second pass paints the runs in order, each at the cursor. *)
Lemma draw_segments_ops be size regular bold padding h segments canvas :
  ops (draw_segments be size regular bold padding h segments canvas).2
  = ops canvas ++ draw_ops be size regular bold (num_half h) padding segments.
Proof.
  unfold draw_segments, forEach.
  generalize padding as x. generalize 0%nat as i.
  revert canvas. induction segments as [|seg segs IH]; intros canvas i x.
  - simpl. by rewrite app_nil_r.
  - cbn [forEach_at draw_ops]. cbv zeta. rewrite IH. simpl.
    by rewrite <- app_assoc.
Qed.

(** Everything that [render_canvas] paints. *)
Lemma render_canvas_ops be req regular bold :
  let canvas := render_canvas be req regular bold in
  let scaledFontSize := num_mul (req_fontSize req) (req_scale req) in
  let padding := num_mul (num_of_Z 8) (req_scale req) in
  ops canvas =
  ClearRect (num_of_Z 0) (num_of_Z 0) (width canvas) (height canvas)
  :: background_ops (req_backgroundColor req) (width canvas) (height canvas)
  ++ draw_ops be scaledFontSize regular bold (num_half (height canvas))
              padding (parseText (req_text req)).
Proof.
  intros canvas scaledFontSize padding.
  destruct (render_canvas_shape be req regular bold) as (Hw & Hh & _).
  fold canvas in Hw, Hh. rewrite Hw, Hh. clear Hw Hh.
  subst canvas. unfold render_canvas.
  fold scaledFontSize. fold padding.
  destruct (measure_segments_spec be scaledFontSize regular bold
              (parseText (req_text req))
              (createCanvas (num_of_Z 1) (num_of_Z 1))) as (Htw & _).
  destruct (measure_segments _ _ _ _ _ _) as [tw c1]. simpl in Htw.
  fold (total_width be scaledFontSize regular bold (parseText (req_text req)))
    in Htw. subst tw.
  match goal with
  | |- context [draw_segments be scaledFontSize regular bold padding ?H ?segs ?c] =>
      pose proof (draw_segments_ops be scaledFontSize regular bold padding H
                    segs c) as Hops;
      destruct (draw_segments be scaledFontSize regular bold padding H segs c)
        as [currentX c2]
  end.
  simpl in Hops. rewrite Hops. unfold background_ops.
  repeat case_decide; try done; simpl; congruence.
Qed.

(** An image response encodes the canvas of the request. *)
Lemma GET_image_canvas be searchParams w body headers w' :
  GET be searchParams w = (ImageResponse body headers, w') ->
  let req := request_of searchParams in
  be_toBuffer be (render_canvas be req (handle (req_fontFamily req) false)
                                (handle (req_fontFamily req) true))
  = inr body.
Proof.
  intros (_ & canvas & Hrender & Hbuf)%GET_image_inv req.
  by apply render_inv in Hrender as (-> & _).
Qed.

Lemma omap_draw_ops_text be size regular bold y x runs :
  omap drawn_text (draw_ops be size regular bold y x runs)
  = map (fun run => (text run, if isBold run then bold else regular)) runs.
Proof.
  revert x. induction runs as [|run runs IH]; intros x; [done|].
  simpl. by rewrite IH.
Qed.


Lemma omap_background_ops {A : Type} (f : DrawOp -> option A) bg w h :
  (forall style x y w h, f (FillRect style x y w h) = None) ->
  omap f (background_ops bg w h) = [].
Proof.
  intros Hf. unfold background_ops. case_decide; [done|]. simpl.
  by rewrite Hf.
Qed.

(** X16: the encoded canvas shows the runs of the text in their order,
    each run once, bold runs in the bold face and the others in the
    regular face; nothing else is written on it. *)
Theorem drawn_runs be searchParams w body headers w' :
  GET be searchParams w = (ImageResponse body headers, w') ->
  let req := request_of searchParams in
  exists canvas,
    be_toBuffer be canvas = inr body
    /\ omap drawn_text (ops canvas)
       = map (fun run => (text run, handle (req_fontFamily req) (isBold run)))
             (parseText (req_text req)).
Proof.
  intros H req. eexists. split; [exact (GET_image_canvas _ _ _ _ _ _ H)|].
  fold req. rewrite render_canvas_ops. cbn [omap list_omap drawn_text].
  rewrite omap_app, omap_background_ops by done.
  rewrite omap_draw_ops_text. simpl. apply map_ext.
  intros run. by destruct (isBold run).
Qed.

Lemma drawn_runs_witness :
  exists canvas,
    be_toBuffer (monospace_backend 1) canvas = inr []
    /\ omap drawn_text (ops canvas)
       = [("Hello", "Roboto"); ("World", "Roboto-bold"); ("!", "Roboto")].
Proof.
  apply (drawn_runs (monospace_backend 1)
           [("text", "Hello__World__!"); ("font", "Roboto")] startup []
           png_headers
           (GET (monospace_backend 1)
                [("text", "Hello__World__!"); ("font", "Roboto")] startup).2).
  reflexivity.
Defined.



Section Sizing.
Local Open Scope Q_scope.




End Sizing.





(** X21: a request that is answered with an image writes nothing to the
    console; a request that fails writes exactly one entry, the thrown
    value under the label of the handler. *)
Theorem GET_console be searchParams w :
  match (GET be searchParams w).1 with
  | ImageResponse _ _ => console (GET be searchParams w).2 = console w
  | JsonResponse _ _ =>
      exists e,
        console (GET be searchParams w).2
        = console w ++ [("Error generating PNG:", e)]
  end.
Proof.
  unfold GET, GET_try, bind, toBuffer.
  pose proof (render_grows be (request_of searchParams) w) as (_ & _ & _ & Hc).
  destruct (render be (request_of searchParams) w) as [[e|canvas] w1];
    simpl in *.
  - exists e. by rewrite Hc.
  - destruct (be_toBuffer be canvas) as [e|buf]; simpl; [|done].
    exists e. by rewrite Hc.
Qed.





